(** * go-web-app: handlers, adapters and the request context

    A shallow embedding of the Go examples of the repository: the logging
    middleware, the [Adapter] type with [Notify] and [Adapt], the database
    wrapper that passes a session through the request context, the books
    route with its path variables, the static file route and the todo
    template handler.

    A handler is a function from a request to a computation that writes to
    the response writer, reads and updates the request context, appends log
    lines and either returns or panics. *)

From Stdlib Require Import Ascii.
From stdpp Require Import gmap strings list fin_maps.

#[local] Set Warnings "-register-all".

Local Open Scope string_scope.
Local Open Scope list_scope.

(** ** The Go runtime as seen by a handler *)

(** Values held behind [interface{}] in the request context. *)
Inductive Value : Type :=
| VNil
| VSession (id : nat)
| VLogger (prefix : string)
| VString (s : string).

(** [*http.Request]: the pointer identity, the method, [r.URL.Path] and the
    route variables the router attached to it. *)
Record Request : Type := mkRequest {
  req_ptr : nat;
  Method : string;
  URL_Path : string;
  route_vars : gmap string string
}.

(** The state behind an [http.ResponseWriter]: [Header()], the status given
    to [WriteHeader] (none while nothing was written) and the body bytes. *)
Record ResponseWriter : Type := mkWriter {
  Header : gmap string string;
  status : option nat;
  body : string
}.

Definition StatusOK : nat := 200.
Definition StatusInternalServerError : nat := 500.

(** What a handler can read and change. *)
Record World : Type := mkWorld {
  writer : ResponseWriter;
  context_data : gmap nat (gmap string Value);
  sessions_open : gset nat;
  session_next : nat
}.

(** Output-only effects. [LogLine] is a line given to a logger; [Probe] is a
    ghost mark used to count how often a handler is entered. *)
Inductive Event : Type :=
| LogLine (prefix msg : string)
| Probe (tag : string).

Inductive Outcome (A : Type) : Type :=
| Returned (a : A)
| Panicked (why : string).
Arguments Returned {A} a.
Arguments Panicked {A} why.

(** A Go computation: the events it emits, the world it leaves and how it
    ends. *)
Definition Exec (A : Type) : Type := World -> list Event * World * Outcome A.

Definition trace_of {A} (x : list Event * World * Outcome A) : list Event := x.1.1.
Definition world_of {A} (x : list Event * World * Outcome A) : World := x.1.2.
Definition outcome_of {A} (x : list Event * World * Outcome A) : Outcome A := x.2.

Definition ret {A} (a : A) : Exec A := fun w => ([], w, Returned a).

Definition bind {A B} (m : Exec A) (k : A -> Exec B) : Exec B :=
  fun w =>
    let '(t1, w1, o1) := m w in
    match o1 with
    | Returned a => let '(t2, w2, o2) := k a w1 in (t1 ++ t2, w2, o2)
    | Panicked p => (t1, w1, Panicked p)
    end.

Definition panic {A} (why : string) : Exec A := fun w => ([], w, Panicked why).

Definition emit (evs : list Event) : Exec unit := fun w => (evs, w, Returned tt).

Declare Scope go_scope.
Delimit Scope go_scope with go.
Notation "x <- m ;; k" := (bind m (fun x => k))
  (at level 100, m at next level, right associativity) : go_scope.
Notation "m ;;; k" := (bind m (fun _ => k))
  (at level 100, right associativity) : go_scope.
Local Open Scope go_scope.

(** [defer d] followed by [body]: [d] runs when [body] returns and also when
    it panics; a panic of [d] replaces the outcome of [body]. *)
Definition defer {A} (d : Exec unit) (body : Exec A) : Exec A :=
  fun w =>
    let '(t1, w1, o1) := body w in
    let '(t2, w2, o2) := d w1 in
    (t1 ++ t2, w2, match o2 with
                   | Returned _ => o1
                   | Panicked p => Panicked p
                   end).

(** *** package log *)

Record Logger : Type := mkLogger { log_prefix : string }.

(** The package-level logger used by [log.Println]. *)
Definition std : Logger := mkLogger "".

Definition Println (l : Logger) (msg : string) : Exec unit :=
  emit [LogLine (log_prefix l) msg].

(** *** http.ResponseWriter *)

Definition modify_writer (f : ResponseWriter -> ResponseWriter) : Exec unit :=
  fun w => ([], mkWorld (f (writer w)) (context_data w) (sessions_open w) (session_next w),
            Returned tt).

(** [w.WriteHeader(code)]: the first status wins. *)
Definition WriteHeader (code : nat) : Exec unit :=
  modify_writer (fun rw =>
    match status rw with
    | Some _ => rw
    | None => mkWriter (Header rw) (Some code) (body rw)
    end).

(** [w.Write(p)]: an implicit [WriteHeader(http.StatusOK)] on the first write. *)
Definition Write (p : string) : Exec unit :=
  modify_writer (fun rw =>
    mkWriter (Header rw)
             (match status rw with Some c => Some c | None => Some StatusOK end)
             (body rw +:+ p)).

(** What the server sends once the handler returned: a handler that wrote
    nothing answers 200 with an empty body. *)
Definition sent_status (rw : ResponseWriter) : nat := default StatusOK (status rw).

Definition newline : string := String "010"%char EmptyString.
Definition dquote : string := String "034"%char EmptyString.

(** [fmt.Fprintln(w, s)] *)
Definition Fprintln (s : string) : Exec unit := Write (s +:+ newline).

(** ** Handlers and adapters *)

(** [http.Handler], given by its only method [ServeHTTP(w, r)];
    [http.HandlerFunc] is the same function, called directly. *)
Definition Handler : Type := Request -> Exec unit.

(** <<
    func logging(f http.HandlerFunc) http.HandlerFunc {
      return func (w http.ResponseWriter, r *http.Request) {
        log.Println(r.URL.Path)
        f(w, r)
      }
    }
    >> *)
Definition logging (f : Handler) : Handler :=
  fun r => Println std (URL_Path r) ;;; f r.

Definition foo : Handler := fun _ => Fprintln "foo".
Definition bar : Handler := fun _ => Fprintln "bar".

(** [type Adapter func(http.Handler) http.Handler] *)
Definition Adapter : Type := Handler -> Handler.

(** <<
    func Notify() Adapter {
      return func(h http.Handler) http.Handler {
        return http.HandlerFunc(func (w http.ResponseWriter, r *http.Request) {
          log.Println("before")
          defer log.Println("after")
          h.ServeHTTP(w, r)
        })
      }
    }
    >>
    The usage lines call it as [Notify(logger)]; the logger is a parameter
    here and [Notify std] is the function as printed. *)
Definition Notify (logger : Logger) : Adapter :=
  fun h r =>
    Println logger "before" ;;;
    defer (Println logger "after") (h r).

(** The shape [Notify] is an instance of: logic before the wrapped handler,
    logic deferred until it is done. *)
Definition around (pre post : Exec unit) : Adapter :=
  fun h r => pre ;;; defer post (h r).

(** <<
    func Adapt(h http.Handler, adapters ...Adapter) http.Handler {
      for _, adapter := range adapters {
        h = adapter(h)
      }
      return h
    }
    >> *)
Fixpoint Adapt (h : Handler) (adapters : list Adapter) : Handler :=
  match adapters with
  | [] => h
  | adapter :: rest => Adapt (adapter h) rest
  end.

(** A handler wrapped so that entering it leaves a ghost mark. *)
Definition probed (tag : string) (f : Handler) : Handler :=
  fun r => emit [Probe tag] ;;; f r.

Definition is_probe (tag : string) (e : Event) : bool :=
  match e with
  | Probe t => bool_decide (t = tag)
  | LogLine _ _ => false
  end.

Definition entries (tag : string) (t : list Event) : nat :=
  length (List.filter (is_probe tag) t).

(** ** The request context

    [context.Set], [context.Get] and [context.ClearHandler] come from the
    package gorilla/context, of which the sources only hold the calls. *)

(** Modelled from the spec: the context store of gorilla/context, which the
    sources only call; it is "a per-request mapping from string keys to
    arbitrary values" with "an isolated slot keyed by request identity".
    [store_set] is [set(request, key, value)]. *)
Definition store_set (r : nat) (key : string) (v : Value)
    (data : gmap nat (gmap string Value)) : gmap nat (gmap string Value) :=
  <[r := <[key := v]> (default ∅ (data !! r))]> data.

(** Modelled from the spec: [get(request, key)] of the same store; a key that
    was never set reads as nil. *)
Definition store_get (r : nat) (key : string)
    (data : gmap nat (gmap string Value)) : Value :=
  match data !! r with
  | Some slot => default VNil (slot !! key)
  | None => VNil
  end.

(** Modelled from the spec: the release of a request's slot "when the
    top-level request handling completes" ([context.Clear]). *)
Definition store_clear (r : nat)
    (data : gmap nat (gmap string Value)) : gmap nat (gmap string Value) :=
  delete r data.

Definition context_Set (r : Request) (key : string) (v : Value) : Exec unit :=
  fun w => ([], mkWorld (writer w) (store_set (req_ptr r) key v (context_data w))
                        (sessions_open w) (session_next w),
            Returned tt).

Definition context_Get (r : Request) (key : string) : Exec Value :=
  fun w => ([], w, Returned (store_get (req_ptr r) key (context_data w))).

Definition context_Clear (r : Request) : Exec unit :=
  fun w => ([], mkWorld (writer w) (store_clear (req_ptr r) (context_data w))
                        (sessions_open w) (session_next w),
            Returned tt).

(** [context.ClearHandler(h)]: serve, then drop the slot of the request. *)
Definition context_ClearHandler (h : Handler) : Handler :=
  fun r => defer (context_Clear r) (h r).

(** Operations of concurrent requests on the store are atomic (the package
    guards its map with a lock), so a concurrent run is an interleaving: a
    list of operations, each tagged with the request that performs it. *)
Inductive CtxOp : Type :=
| OpSet (key : string) (v : Value)
| OpGet (key : string)
| OpClear.

Definition ctx_step (r : nat) (op : CtxOp)
    (data : gmap nat (gmap string Value)) : gmap nat (gmap string Value) :=
  match op with
  | OpSet key v => store_set r key v data
  | OpGet _ => data
  | OpClear => store_clear r data
  end.

Fixpoint ctx_run (sched : list (nat * CtxOp))
    (data : gmap nat (gmap string Value)) : gmap nat (gmap string Value) :=
  match sched with
  | [] => data
  | (r, op) :: rest => ctx_run rest (ctx_step r op data)
  end.

(** The values the gets of request [me] return along an interleaving. *)
Fixpoint observed (me : nat) (sched : list (nat * CtxOp))
    (data : gmap nat (gmap string Value)) : list Value :=
  match sched with
  | [] => []
  | (r, op) :: rest =>
      match op with
      | OpGet key =>
          if bool_decide (r = me)
          then store_get r key data :: observed me rest data
          else observed me rest data
      | _ => observed me rest (ctx_step r op data)
      end
  end.

Definition performed_by (me : nat) (x : nat * CtxOp) : bool := bool_decide (x.1 = me).

(** Whether an operation of request [r] overwrites or drops its [key]. *)
Definition clobbers (r : nat) (key : string) (x : nat * CtxOp) : bool :=
  match x with
  | (r', OpSet key' _) => bool_decide (r' = r) && bool_decide (key' = key)
  | (r', OpClear) => bool_decide (r' = r)
  | (_, OpGet _) => false
  end.

(** <<
    func prepareSomething(w http.ResponseWriter, r *http.Request) {
      context.Set(r, "logger", logger)
    }
    >> *)
Definition prepareSomething (logger : Logger) : Handler :=
  fun r => context_Set r "logger" (VLogger (log_prefix logger)).

(** <<
    func handleSomethingElse(w http.ResponseWriter, r *http.Request) {
      logger := context.Get(r, "logger").( *log.Logger )
    }
    >> *)
Definition handleSomethingElse : Handler :=
  fun r =>
    v <- context_Get r "logger" ;;
    match v with
    | VLogger _ => ret tt
    | _ => panic "interface conversion: interface {} is not *log.Logger"
    end.

(** ** The database wrapper *)

(** The mgo session handle: [Copy] checks out a new session, [Close] gives
    it back. *)
Definition Session_Copy (s : nat) : Exec nat :=
  fun w => ([], mkWorld (writer w) (context_data w)
                        ({[session_next w]} ∪ sessions_open w) (S (session_next w)),
            Returned (session_next w)).

Definition Session_Close (s : nat) : Exec unit :=
  fun w => ([], mkWorld (writer w) (context_data w)
                        (sessions_open w ∖ {[s]}) (session_next w),
            Returned tt).

Record dbwrapper : Type := mk_dbwrapper {
  dbSession : nat;
  h : Handler
}.

(** <<
    func (dbwrapper *dbwrapper) ServeHTTP(w http.ResponseWriter, r *http.Request) {
      dbcopy := h.dbSession.Copy()
      defer dbcopy.Close()
      context.Set(r, "db", dbcopy)
      dbwrapper.h.ServeHTTP(w, r)
    }
    >>
    ([h.dbSession] in the first line is the receiver's field.) *)
Definition dbwrapper_ServeHTTP (d : dbwrapper) : Handler :=
  fun r =>
    dbcopy <- Session_Copy (dbSession d) ;;
    defer (Session_Close dbcopy)
      (context_Set r "db" (VSession dbcopy) ;;;
       h d r).

Definition WithDB (s : nat) (hd : Handler) : Handler :=
  dbwrapper_ServeHTTP (mk_dbwrapper s hd).

(** [http.Error(w, msg, code)] *)
Definition http_Error (msg : string) (code : nat) : Exec unit :=
  modify_writer (fun rw =>
    mkWriter (<["X-Content-Type-Options" := "nosniff"]>
                (<["Content-Type" := "text/plain; charset=utf-8"]> (Header rw)))
             (status rw) (body rw)) ;;;
  WriteHeader code ;;;
  Fprintln msg.

Definition StatusNotFound : nat := 404.

Definition http_NotFound : Exec unit := http_Error "404 page not found" StatusNotFound.

Section Things.

(** The JSON encoder of [respond] and the query
    [db.DB("myapp").C("things").Find(nil).All(&results)]: an error message
    on the left, the result on the right. *)
Variable Encode : string -> string + string.
Variable Find_All : nat -> Exec (string + string).

(** <<
    func respond(w http.ResponseWriter, r *http.Request, status int, data interface{}) {
      var buf bytes.Buffer
      if err := json.NewEncoder(&buf).Encode(data); err != nil {
        http.Error(w, err.Error(), http.StatusInternalServerError)
        return
      }
      w.WriteHeader(status)
      if _, err := io.Copy(w, &buf); err != nil {
        log.Println("respond:", err)
      }
    }
    >>
    Writes to the response do not fail here, so the last log line never
    appears. *)
Definition respond (r : Request) (code : nat) (data : string) : Exec unit :=
  match Encode data with
  | inl err => http_Error err StatusInternalServerError
  | inr buf => WriteHeader code ;;; Write buf
  end.

(** <<
    func handleThingsRead(w http.ResponseWriter, r *http.Resquest) {
      db := context.Get(r, "db").( *mgo.Session )
      var results []interface{}
      if err := db.DB("myapp").C("things").Find(nil).All(&results); err != nil {
        respond.With(w, r, http.StatusInternalServerError, err)
        return
      }
      respond.With(w, r, http.StatusOK, results)
    }
    >>
    [respond.With] belongs to the package matryer/respond, which the
    chapter names and does not print; the [respond] of the chapter, printed
    above, stands for it here. *)
Definition things_with (v : Value) (r : Request) : Exec unit :=
  match v with
  | VSession db =>
      res <- Find_All db ;;
      match res with
      | inl err => respond r StatusInternalServerError err
      | inr results => respond r StatusOK results
      end
  | _ => panic "interface conversion: interface {} is not *mgo.Session"
  end.

Definition handleThingsRead : Handler :=
  fun r => v <- context_Get r "db" ;; things_with v r.

End Things.

(** ** Routing

    The router is gorilla/mux, of which the sources hold the registration of
    the routes and the handler that reads [mux.Vars]. *)

Definition slash : ascii := "/"%char.

(** The pieces of [s] between the occurrences of [sep]. *)
Fixpoint split_on (sep : ascii) (s : string) : list string :=
  match s with
  | EmptyString => [EmptyString]
  | String c s' =>
      if Ascii.eqb c sep then EmptyString :: split_on sep s'
      else match split_on sep s' with
           | piece :: pieces => String c piece :: pieces
           | [] => [String c EmptyString]
           end
  end.

(** The segments of an absolute path: [/a/b] has the segments [a] and [b]. *)
Definition segments (path : string) : list string :=
  match path with
  | String c rest => if Ascii.eqb c slash then split_on slash rest else split_on slash path
  | EmptyString => []
  end.

Inductive Segment : Type :=
| Literal (s : string)
| Placeholder (name : string).

(** The text before a closing brace that ends the string. *)
Fixpoint before_closing_brace (s : string) : option string :=
  match s with
  | EmptyString => None
  | String c EmptyString => if Ascii.eqb c "}"%char then Some EmptyString else None
  | String c s' => option_map (String c) (before_closing_brace s')
  end.

Definition parse_segment (s : string) : Segment :=
  match s with
  | String c rest =>
      if Ascii.eqb c "{"%char then
        match before_closing_brace rest with
        | Some name => Placeholder name
        | None => Literal s
        end
      else Literal s
  | EmptyString => Literal s
  end.

Definition parse_pattern (pattern : string) : list Segment :=
  parse_segment <$> segments pattern.

(** Modelled from the spec: the matching policy of the router (gorilla/mux,
    absent from the sources): "exact literal segments match literally;
    placeholder segments match any single path segment and bind it by
    name". *)
Fixpoint match_segments (pat : list Segment) (path : list string)
    (vars : gmap string string) : option (gmap string string) :=
  match pat, path with
  | [], [] => Some vars
  | Literal l :: pat', s :: path' =>
      if String.eqb l s then match_segments pat' path' vars else None
  | Placeholder name :: pat', s :: path' =>
      match_segments pat' path' (<[name := s]> vars)
  | _, _ => None
  end.

Fixpoint placeholder_names (pat : list Segment) : list string :=
  match pat with
  | [] => []
  | Literal _ :: pat' => placeholder_names pat'
  | Placeholder name :: pat' => name :: placeholder_names pat'
  end.

(** A segment of the path agrees with the segment of the pattern at the same
    place: a literal is the segment itself, a placeholder is bound to it. *)
Definition segment_agrees (vars : gmap string string) (seg : Segment) (s : string) : Prop :=
  match seg with
  | Literal l => s = l
  | Placeholder name => vars !! name = Some s
  end.

Record Route : Type := mkRoute {
  route_pattern : string;
  route_handler : Handler
}.

(** Modelled from the spec: [dispatch(requestPath)] of the router, "the
    matched handler plus extracted placeholder bindings, or a not found
    result", the first matching route in registration order winning. *)
Fixpoint dispatch (routes : list Route) (path : string)
    : option (Route * gmap string string) :=
  match routes with
  | [] => None
  | route :: rest =>
      match match_segments (parse_pattern (route_pattern route)) (segments path) ∅ with
      | Some vars => Some (route, vars)
      | None => dispatch rest path
      end
  end.

Definition with_vars (r : Request) (vars : gmap string string) : Request :=
  mkRequest (req_ptr r) (Method r) (URL_Path r) vars.

Definition with_path (r : Request) (path : string) : Request :=
  mkRequest (req_ptr r) (Method r) path (route_vars r).

(** The router as a handler: the selected handler runs on the request with
    its variables attached. *)
Definition Router_ServeHTTP (routes : list Route) : Handler :=
  fun r =>
    match dispatch routes (URL_Path r) with
    | Some (route, vars) => route_handler route (with_vars r vars)
    | None => http_NotFound
    end.

(** [mux.Vars(r)] and the lookup [vars[name]], which is the empty string for
    a name that is not bound. *)
Definition mux_Vars (r : Request) : gmap string string := route_vars r.

Definition var_at (vars : gmap string string) (name : string) : string :=
  default "" (vars !! name).

(** <<
    r.HandleFunc("/books/{title}/page/{page}", func(w http.ResponseWriter, r *http.Request) {
      fmt.Fprintf(w, "Hello, you have requested: %s\n", r.URL.Path)
      vars := mux.Vars(r)
      title := vars["title"]
      page := vars["page"]
      fmt.Fprintf(w, "Hello, you have requested the book %s on page %s\n", title, page)
    })
    >> *)
Definition books_handler : Handler :=
  fun r =>
    Write ("Hello, you have requested: " +:+ URL_Path r +:+ newline) ;;;
    let vars := mux_Vars r in
    let title := var_at vars "title" in
    let page := var_at vars "page" in
    Write ("Hello, you have requested the book " +:+ title +:+ " on page " +:+ page +:+ newline).

(** ** Static files *)

Fixpoint strip_prefix (prefix s : string) : option string :=
  match prefix, s with
  | EmptyString, _ => Some s
  | String a prefix', String b s' =>
      if Ascii.eqb a b then strip_prefix prefix' s' else None
  | String _ _, EmptyString => None
  end.

(** [http.StripPrefix(prefix, h)]: [h] sees the path without the prefix; a
    path that does not start with it is not found. *)
Definition StripPrefix (prefix : string) (hd : Handler) : Handler :=
  fun r =>
    match strip_prefix prefix (URL_Path r) with
    | Some rest => hd (with_path r rest)
    | None => http_NotFound
    end.

(** The location a path denotes for the file system, starting in the
    directory [dir] (innermost first): a parent segment leaves a directory,
    and stays where it is at the top. *)
Fixpoint walk (dir : list string) (segs : list string) : list string :=
  match segs with
  | [] => rev dir
  | seg :: rest =>
      if String.eqb seg ".." then walk (tail dir) rest
      else if String.eqb seg "" || String.eqb seg "." then walk dir rest
      else walk (seg :: dir) rest
  end.


(** Modelled from the spec: how the static file responder
    ([http.FileServer], absent from the sources) is to "resolve a request
    path to a file under that directory". The model follows what the library
    does with the path: it cleans it as [path.Clean] does, so that empty and
    "." segments go, a ".." segment removes the segment before it and is
    dropped at the root. No cleaned path leads out of the root, and no path
    is rejected for its parent segments. *)
Definition clean (upath : string) : list string :=
  walk [] (split_on slash upath).

(** The location the responder looks up for the path [upath]. *)
Definition locate (root : list string) (upath : string) : list string :=
  root ++ clean upath.

(** What the disk holds at a location. [disk] maps the location of a file
    to its contents; a directory is known by the files below it. *)
Inductive Entry : Type :=
| IsFile (contents : string)
| IsDir
| Absent.

Definition strictly_below (dir loc : list string) : bool :=
  bool_decide (dir `prefix_of` loc) && negb (bool_decide (dir = loc)).

Definition entry_at (disk : gmap (list string) string) (loc : list string) : Entry :=
  match disk !! loc with
  | Some contents => IsFile contents
  | None =>
      if existsb (fun kv => strictly_below loc kv.1) (map_to_list disk)
      then IsDir else Absent
  end.

(** The entry of the directory [dir] that leads to [loc]: its name, and
    whether it is a directory itself. *)
Definition child_of (dir loc : list string) : option (string * bool) :=
  if strictly_below dir loc then
    match drop (length dir) loc with
    | [] => None
    | [name] => Some (name, false)
    | name :: _ => Some (name, true)
    end
  else None.

Fixpoint insert_by_name (e : string * bool) (sorted : list (string * bool))
    : list (string * bool) :=
  match sorted with
  | [] => [e]
  | e' :: rest =>
      if String.leb e.1 e'.1 then e :: sorted else e' :: insert_by_name e rest
  end.

(** The entries of a directory, sorted by name. *)
Definition children (disk : gmap (list string) string) (dir : list string)
    : list (string * bool) :=
  foldr insert_by_name []
    (remove_dups (omap (fun kv => child_of dir kv.1) (map_to_list disk))).

(** The last segment that is not empty. *)
Fixpoint last_named (segs : list string) : option string :=
  match segs with
  | [] => None
  | seg :: rest =>
      match last_named rest with
      | Some name => Some name
      | None => if String.eqb seg "" then None else Some seg
      end
  end.

(** [path.Base]: the last element of a path, trailing slashes set aside;
    "." for the empty path and "/" for a path of slashes only. *)
Definition path_Base (path : string) : string :=
  match path with
  | EmptyString => "."
  | _ => default "/" (last_named (split_on slash path))
  end.

(** Whether [s] ends with [suffix]. *)
Fixpoint ends_with (suffix s : string) : bool :=
  String.eqb s suffix
  || match s with
     | String _ s' => ends_with suffix s'
     | EmptyString => false
     end.

(** What the responder decides for a path. *)
Inductive Answer : Type :=
| Redirect (target : string)
| NotFound
| ServeFile (loc : list string) (contents : string)
| ListDir (loc : list string) (entries : list (string * bool)).

(** Modelled from the spec: the static file responder ([http.FileServer]
    over [http.Dir], absent from the sources), which is to "resolve a
    request path to a file under that directory after stripping the prefix,
    and stream its contents". As the library does: a path that ends with
    /index.html is redirected to its directory; the cleaned path is looked
    up below the root; what is not there is not found; a directory asked
    for without its final slash, and a file asked for with one, are
    redirected; a directory is answered with its index.html if it has one
    and with the list of its entries otherwise. Conditional and range
    requests are not modelled. *)
Definition answer (root : list string) (disk : gmap (list string) string)
    (upath : string) : Answer :=
  if ends_with "/index.html" upath then Redirect "./"
  else
    let loc := locate root upath in
    match entry_at disk loc with
    | Absent => NotFound
    | IsFile contents =>
        if ends_with "/" upath then Redirect ("../" +:+ path_Base upath)
        else ServeFile loc contents
    | IsDir =>
        if ends_with "/" upath then
          match entry_at disk (loc ++ ["index.html"]) with
          | IsFile contents => ServeFile (loc ++ ["index.html"]) contents
          | IsDir => ListDir (loc ++ ["index.html"])
                             (children disk (loc ++ ["index.html"]))
          | Absent => ListDir loc (children disk loc)
          end
        else Redirect (path_Base upath +:+ "/")
    end.

Definition StatusMovedPermanently : nat := 301.

(** [localRedirect(w, r, newPath)] *)
Definition localRedirect (target : string) : Exec unit :=
  modify_writer (fun rw =>
    mkWriter (<["Location" := target]> (Header rw)) (status rw) (body rw)) ;;;
  WriteHeader StatusMovedPermanently.

(** The page that lists a directory, one link per entry. The names are
    written as they are: their escaping in the page is not modelled. *)
Definition dirList (entries : list (string * bool)) : string :=
  "<!doctype html>" +:+ newline
  +:+ "<meta name=" +:+ dquote +:+ "viewport" +:+ dquote
  +:+ " content=" +:+ dquote +:+ "width=device-width" +:+ dquote +:+ ">" +:+ newline
  +:+ "<pre>" +:+ newline
  +:+ foldr (fun (e : string * bool) (page : string) =>
               let name := if e.2 then e.1 +:+ "/" else e.1 in
               "<a href=" +:+ dquote +:+ name +:+ dquote +:+ ">" +:+ name +:+ "</a>"
               +:+ newline +:+ page)
            ("</pre>" +:+ newline) entries.

Definition perform (a : Answer) : Exec unit :=
  match a with
  | Redirect target => localRedirect target
  | NotFound => http_NotFound
  | ServeFile _ contents => Write contents
  | ListDir _ entries =>
      modify_writer (fun rw =>
        mkWriter (<["Content-Type" := "text/html; charset=utf-8"]> (Header rw))
                 (status rw) (body rw)) ;;;
      Write (dirList entries)
  end.

(** The path with a leading slash, added if it has none. *)
Definition rooted (path : string) : string :=
  match path with
  | String c _ => if Ascii.eqb c slash then path else "/" +:+ path
  | EmptyString => "/"
  end.

(** [http.FileServer(http.Dir(root))]: the path is given its leading slash
    if it has none, and answered. *)
Definition FileServer (root : list string) (disk : gmap (list string) string) : Handler :=
  fun r => perform (answer root disk (rooted (URL_Path r))).



(** <<
    fs := http.FileServer(http.Dir("static/"))
    r.Handle("/static/", http.StripPrefix("/static/", fs))
    >>
    [cwd] is the working directory of the process. *)
Definition static_handler (cwd : list string) (disk : gmap (list string) string) : Handler :=
  StripPrefix "/static/" (FileServer (cwd ++ ["static"]) disk).

(** The routes [main] registers. *)
Definition main_routes (cwd : list string) (disk : gmap (list string) string) : list Route :=
  [ mkRoute "/books/{title}/page/{page}" books_handler;
    mkRoute "/static/" (static_handler cwd disk) ].

(** The server gives each request a new response writer. *)
Definition fresh_writer : ResponseWriter := mkWriter ∅ None "".

Definition serve (hd : Handler) (r : Request) (w : World)
    : list Event * World * Outcome unit :=
  hd r (mkWorld fresh_writer (context_data w) (sessions_open w) (session_next w)).

(** ** Templates

    The renderer is Go's html/template, of which the sources hold the call
    [tmpl.Execute(w, data)], the data types and the text of the layout. *)

(** The data tree a template is rendered against. *)
Inductive Data : Type :=
| DString (s : string)
| DBool (b : bool)
| DList (items : list Data)
| DStruct (fields : list (string * Data)).

(** A parsed template: text, [{{.Field}}], [{{if .Field}}..{{else}}..{{end}}]
    and [{{range .Field}}..{{end}}]. *)
Inductive Node : Type :=
| NText (text : string)
| NField (name : string)
| NIf (name : string) (thn els : list Node)
| NRange (name : string) (body : list Node).

Fixpoint assoc (name : string) (fields : list (string * Data)) : option Data :=
  match fields with
  | [] => None
  | (k, v) :: rest => if String.eqb k name then Some v else assoc name rest
  end.

Definition field (name : string) (d : Data) : option Data :=
  match d with
  | DStruct fields => assoc name fields
  | _ => None
  end.

Definition escape_char (c : ascii) : string :=
  if Ascii.eqb c "<"%char then "&lt;"
  else if Ascii.eqb c ">"%char then "&gt;"
  else if Ascii.eqb c "&"%char then "&amp;"
  else if Ascii.eqb c "034"%char then "&#34;"
  else if Ascii.eqb c "'"%char then "&#39;"
  else String c EmptyString.

(** Modelled from the spec: the escaping the renderer (html/template, absent
    from the sources) applies to "data values interpolated into HTML
    contexts": every HTML-significant character becomes a character
    reference. This is the escaping of element content, which is where the
    layout interpolates. *)
Fixpoint HTMLEscape (s : string) : string :=
  match s with
  | EmptyString => EmptyString
  | String c s' => escape_char c +:+ HTMLEscape s'
  end.

(** What a browser shows for escaped text: the five references decoded. *)
Fixpoint HTMLUnescape (s : string) : string :=
  match s with
  | String "&" (String "l" (String "t" (String ";" rest))) =>
      String "<" (HTMLUnescape rest)
  | String "&" (String "g" (String "t" (String ";" rest))) =>
      String ">" (HTMLUnescape rest)
  | String "&" (String "a" (String "m" (String "p" (String ";" rest)))) =>
      String "&" (HTMLUnescape rest)
  | String "&" (String "#" (String "3" (String "4" (String ";" rest)))) =>
      String "034" (HTMLUnescape rest)
  | String "&" (String "#" (String "3" (String "9" (String ";" rest)))) =>
      String "'" (HTMLUnescape rest)
  | String c rest => String c (HTMLUnescape rest)
  | EmptyString => EmptyString
  end.

(** A rendering step gives the bytes it wrote and the error that stopped
    it, if any. *)
Definition and_then (a b : string * option string) : string * option string :=
  match a with
  | (out, Some err) => (out, Some err)
  | (out, None) => (out +:+ b.1, b.2)
  end.

Fixpoint run_each {X : Type} (f : X -> string * option string) (xs : list X)
    : string * option string :=
  match xs with
  | [] => (EmptyString, None)
  | x :: rest => and_then (f x) (run_each f rest)
  end.

(** Modelled from the spec: [render(templateSource, data)] of the renderer
    (html/template, absent from the sources): interpolated values are
    escaped, "conditional inclusion" and "iteration over an ordered
    sequence" are evaluated against the data tree, "a data-shape mismatch
    (e.g., missing referenced field) fails at render time with a descriptive
    error", and the output written before the error stays. *)
Fixpoint exec_node (n : Node) (d : Data) : string * option string :=
  match n with
  | NText text => (text, None)
  | NField name =>
      match field name d with
      | Some (DString s) => (HTMLEscape s, None)
      | Some (DBool b) => (if b then "true" else "false", None)
      | Some _ => (EmptyString, Some ("cannot print field " +:+ name))
      | None => (EmptyString, Some ("cannot evaluate field " +:+ name))
      end
  | NIf name thn els =>
      match field name d with
      | Some (DBool true) => run_each (fun n' => exec_node n' d) thn
      | Some (DBool false) => run_each (fun n' => exec_node n' d) els
      | Some _ => (EmptyString, Some ("field " +:+ name +:+ " is not a condition"))
      | None => (EmptyString, Some ("cannot evaluate field " +:+ name))
      end
  | NRange name body =>
      match field name d with
      | Some (DList items) =>
          run_each (fun item => run_each (fun n' => exec_node n' item) body) items
      | Some _ => (EmptyString, Some ("cannot range over field " +:+ name))
      | None => (EmptyString, Some ("cannot evaluate field " +:+ name))
      end
  end.

Definition exec (tmpl : list Node) (d : Data) : string * option string :=
  run_each (fun n => exec_node n d) tmpl.

(** The same tree with every string emptied. *)
Fixpoint blank (d : Data) : Data :=
  match d with
  | DString _ => DString EmptyString
  | DBool b => DBool b
  | DList items => DList (map blank items)
  | DStruct fields => DStruct (map (fun kv => (kv.1, blank kv.2)) fields)
  end.

(** The characters that can open or close a tag or an attribute value. *)
Definition is_markup (c : ascii) : bool :=
  Ascii.eqb c "<"%char || Ascii.eqb c ">"%char
  || Ascii.eqb c "034"%char || Ascii.eqb c "'"%char.

Fixpoint markup (s : string) : list ascii :=
  match s with
  | EmptyString => []
  | String c s' => if is_markup c then c :: markup s' else markup s'
  end.

(** Two renderings with the same markup characters and the same error. *)
Definition same_markup (a b : string * option string) : Prop :=
  markup a.1 = markup b.1 /\ a.2 = b.2.

(** [*template.Template], as far as a handler sees it: rendering data gives
    the bytes written and the error returned, if any. *)
Record Template : Type := mkTemplate {
  render : Data -> string * option string
}.

(** The template a parsed document stands for. *)
Definition parsed (nodes : list Node) : Template := mkTemplate (exec nodes).

(** [tmpl.Execute(w, data)]: the output goes to the response writer, the
    error to the caller. *)
Definition Execute (tmpl : Template) (d : Data) : Exec (option string) :=
  let '(out, err) := render tmpl d in
  match out with
  | EmptyString => ret err
  | _ => Write out ;;; ret err
  end.

Record Todo : Type := mkTodo {
  Title : string;
  Done : bool
}.

Record TodoPageData : Type := mkTodoPageData {
  PageTitle : string;
  Todos : list Todo
}.

Definition todo_data (t : Todo) : Data :=
  DStruct [("Title", DString (Title t)); ("Done", DBool (Done t))].

Definition page_data (p : TodoPageData) : Data :=
  DStruct [("PageTitle", DString (PageTitle p)); ("Todos", DList (map todo_data (Todos p)))].

(** The layout of the todo list, as the templates chapter prints it:
    <<
    <h1>{{.PageTitle}}</h1>
    <ul>
      {{range .Todos}}
        {{if .Done}}
          <li class="done">{{.Title}}</li>
        {{else}}
          <li>{{.Title}}</li>
        {{end}}
      {{end}}
    </ul>
    >> *)
Definition layout : list Node :=
  [ NText "<h1>"; NField "PageTitle"; NText ("</h1>" +:+ newline +:+ "<ul>" +:+ newline +:+ "  ");
    NRange "Todos"
      [ NText (newline +:+ "    ");
        NIf "Done"
          [ NText (newline +:+ "      <li class=" +:+ dquote +:+ "done" +:+ dquote +:+ ">");
            NField "Title";
            NText ("</li>" +:+ newline +:+ "    ") ]
          [ NText (newline +:+ "      <li>");
            NField "Title";
            NText ("</li>" +:+ newline +:+ "    ") ];
        NText (newline +:+ "  ") ];
    NText (newline +:+ "</ul>" +:+ newline) ].

(** The data the handler of the todo application renders. *)
Definition todo_page : TodoPageData :=
  mkTodoPageData "My TODO List"
    [ mkTodo "Task 1" false; mkTodo "Task 2" true; mkTodo "Task 3" true ].

(** <<
    http.HandleFunc("/", func(w http.ResponseWriter, r *http.Request) {
      data := TodoPageData { ... }
      tmpl.Execute(w, data)
    })
    >>
    The error [Execute] returns is dropped. *)
Definition todo_handler (tmpl : Template) : Handler :=
  fun r =>
    let data := todo_page in
    _ <- Execute tmpl (page_data data) ;;
    ret tt.

(** What the claim on render failures asks of a handler: a server-error
    status (5xx) and a log line whenever rendering fails. *)
Definition reports_render_failure (hd : Template -> Handler) : Prop :=
  forall tmpl r w err,
    (render tmpl (page_data todo_page)).2 = Some err ->
    (500 <= sent_status (writer (world_of (serve (hd tmpl) r w))) < 600)
    /\ trace_of (serve (hd tmpl) r w) <> [].


(** What the claim on the order of adapters asks of [Adapt]: the adapters
    begin to run in the order of the argument list. *)
Definition begins_in_listed_order : Prop :=
  forall (loggers : list Logger) (hd : Handler) (r : Request) (w : World),
  exists rest,
    trace_of (Adapt hd (Notify <$> loggers) r w)
    = ((fun l => LogLine (log_prefix l) "before") <$> loggers) ++ rest.

(** ** Further handlers of the API chapter *)

(** An error value built by [ErrRequired(field)]. *)
Inductive error : Type :=
| ErrRequired (field : string).

Record Gopher : Type := mkGopher {
  Name : string;
  Country : string
}.

(** <<
    func (g *Gopher) OK() error {
      if len(g.Name) == 0 {
        return ErrRequired("name")
      }
      if len(g.Country) == 0 {
        return ErrRequired("country")
      }
      return nil
    }
    >> *)
Definition OK (g : Gopher) : option error :=
  if Nat.eqb (String.length (Name g)) 0 then Some (ErrRequired "name")
  else if Nat.eqb (String.length (Country g)) 0 then Some (ErrRequired "country")
  else None.

Section Api.

(** The JSON encoder of [respond] and the loader [LoadSomething()]: an
    error message on the left, the result on the right. *)
Variable Encode : string -> string + string.
Variable LoadSomething : Exec (string + string).

(** <<
    func handleSomething(w http.ResponseWriter, r *http.Request) {
      data, err := LoadSomething()
      if err != nil {
        respond(w, r, http.StatusInternalServerError, err)
        return
      }
      respond(w, r, http.StatusOk, data)
    }
    >> *)
Definition handleSomething : Handler :=
  fun r =>
    res <- LoadSomething ;;
    match res with
    | inl err => respond Encode r StatusInternalServerError err
    | inr data => respond Encode r StatusOK data
    end.

End Api.

(** The world in which the handler below [WithDB] starts: the copy of the
    session is open and stored under "db" for the request. *)
Definition with_session (r : Request) (w : World) : World :=
  mkWorld (writer w)
          (store_set (req_ptr r) "db" (VSession (session_next w)) (context_data w))
          ({[session_next w]} ∪ sessions_open w) (S (session_next w)).

(** Whether a string holds the character [c]. *)
Fixpoint has_char (c : ascii) (s : string) : bool :=
  match s with
  | EmptyString => false
  | String c' s' => Ascii.eqb c' c || has_char c s'
  end.

(** ** Theorems *)

Lemma Adapt_snoc (h : Handler) (adapters : list Adapter) (a : Adapter) :
  Adapt h (adapters ++ [a]) = a (Adapt h adapters).
Proof.
  revert h. induction adapters as [|b rest IH]; intros h; simpl.
  - reflexivity.
  - apply IH.
Qed.

(** *** Running adapters *)

Lemma result_eta {A} (x : list Event * World * Outcome A) :
  x = (trace_of x, world_of x, outcome_of x).
Proof. destruct x as [[t w] o]. reflexivity. Qed.

Lemma Notify_run (l : Logger) (hd : Handler) (r : Request) (w : World) :
  Notify l hd r w
  = (LogLine (log_prefix l) "before" :: trace_of (hd r w) ++ [LogLine (log_prefix l) "after"],
     world_of (hd r w), outcome_of (hd r w)).
Proof.
  unfold Notify, bind, defer, Println, emit.
  destruct (hd r w) as [[t w'] o]. reflexivity.
Qed.

Lemma Adapt_fold_right (hd : Handler) (adapters : list Adapter) :
  Adapt hd adapters = fold_right (fun a acc => a acc) hd (rev adapters).
Proof.
  induction adapters as [|a rest IH] using rev_ind.
  - reflexivity.
  - rewrite Adapt_snoc, rev_unit. simpl. now rewrite IH.
Qed.

Lemma Adapt_Notify_trace (loggers : list Logger) (hd : Handler) (r : Request) (w : World) :
  Adapt hd (Notify <$> loggers) r w
  = (((fun l => LogLine (log_prefix l) "before") <$> rev loggers)
       ++ trace_of (hd r w)
       ++ ((fun l => LogLine (log_prefix l) "after") <$> loggers),
     world_of (hd r w), outcome_of (hd r w)).
Proof.
  induction loggers as [|l ls IH] using rev_ind.
  - simpl. rewrite app_nil_r. apply result_eta.
  - rewrite fmap_app. simpl. rewrite Adapt_snoc, Notify_run, IH.
    unfold trace_of, world_of, outcome_of. simpl.
    rewrite rev_unit, fmap_app. simpl.
    now rewrite <- !app_assoc.
Qed.

(** The call of the usage lines, with an adapter of the shape of [Notify]
    for each of the four names: the request runs through them in the order
    the comment above the call gives, which is the reverse of the argument
    list. *)
Example usage_flow :
  trace_of (Adapt foo (Notify <$> [mkLogger "AddHeader"; mkLogger "CheckAuth";
                                   mkLogger "CopyMgoSession"; mkLogger "Notify"])
              (mkRequest 0 "GET" "/" ∅) (mkWorld fresh_writer ∅ ∅ 0))
  = [ LogLine "Notify" "before"; LogLine "CopyMgoSession" "before";
      LogLine "CheckAuth" "before"; LogLine "AddHeader" "before";
      LogLine "AddHeader" "after"; LogLine "CheckAuth" "after";
      LogLine "CopyMgoSession" "after"; LogLine "Notify" "after" ].
Proof. now rewrite Adapt_Notify_trace. Qed.

(** C10. [Adapt] with no adapter gives back the base handler itself. *)
Theorem Adapt_no_adapters (hd : Handler) : Adapt hd [] = hd.
Proof. reflexivity. Qed.

(** C1, as the code has it. [Adapt(h, a1, ..., an)] is [an(...(a1(h))...)]:
    each adapter wraps the result of the ones before it and the last one of
    the list is the outermost wrapper. A request therefore enters the
    adapters from the last of the list to the first and leaves them from the
    first to the last: with [Notify] adapters the "before" lines come in
    reverse order of the list, the "after" lines in the order of the list. *)
Theorem Adapt_last_is_outermost (hd : Handler) (adapters : list Adapter) :
  Adapt hd adapters = fold_right (fun a acc => a acc) hd (rev adapters)
  /\ (forall a, Adapt hd (adapters ++ [a]) = a (Adapt hd adapters))
  /\ (forall loggers r w,
        trace_of (Adapt hd (Notify <$> loggers) r w)
        = ((fun l => LogLine (log_prefix l) "before") <$> rev loggers)
            ++ trace_of (hd r w)
            ++ ((fun l => LogLine (log_prefix l) "after") <$> loggers)).
Proof.
  split; [apply Adapt_fold_right|].
  split; [intros a; apply Adapt_snoc|].
  intros loggers r w. now rewrite Adapt_Notify_trace.
Qed.

(** C1, as stated, fails: the adapters do not begin to run in the order in
    which the caller lists them. With [Notify] for the loggers A then B, the
    first line logged is the one of B. *)
Lemma Adapt_runs_last_listed_first : ~ begins_in_listed_order.
Proof.
  intros Hclaim.
  destruct (Hclaim [mkLogger "A"; mkLogger "B"] foo
              (mkRequest 0 "GET" "/" ∅) (mkWorld fresh_writer ∅ ∅ 0)) as [rest Hrest].
  vm_compute in Hrest. discriminate Hrest.
Qed.

(** C2. For adapters A (outer) and B (inner) that run their logic before the
    wrapped handler and defer their logic after it, the composed handler
    A(B(H)) runs A's pre-logic, B's pre-logic, H, B's post-logic and A's
    post-logic, in this order, each on the world the one before left; this
    holds also when H panics. *)
Theorem adapters_nest_like_a_stack
    (preA postA preB postB : Exec unit) (H : Handler) (r : Request) (w : World)
    (ta tb : list Event) (wa wb : World) :
  preA w = (ta, wa, Returned tt) ->
  preB wa = (tb, wb, Returned tt) ->
  let rh := H r wb in
  let rb := postB (world_of rh) in
  let ra := postA (world_of rb) in
  trace_of (around preA postA (around preB postB H) r w)
  = ta ++ tb ++ trace_of rh ++ trace_of rb ++ trace_of ra
  /\ world_of (around preA postA (around preB postB H) r w) = world_of ra
  /\ outcome_of (around preA postA (around preB postB H) r w)
     = match outcome_of ra, outcome_of rb with
       | Panicked p, _ => Panicked p
       | Returned _, Panicked p => Panicked p
       | Returned _, Returned _ => outcome_of rh
       end.
Proof.
  intros HA HB rh rb ra. subst rh rb ra.
  unfold around, bind, defer, trace_of, world_of, outcome_of. rewrite HA, HB.
  destruct (H r wb) as [[th wh] oh]; simpl.
  destruct (postB wh) as [[tb' wb'] ob']; simpl.
  destruct (postA wb') as [[ta' wa'] oa']; simpl.
  split; [now rewrite <- !app_assoc|].
  split; [reflexivity|].
  destruct oa', ob'; reflexivity.
Qed.

Lemma adapters_nest_like_a_stack_witness :
  trace_of (around (Println (mkLogger "A") "before") (Println (mkLogger "A") "after")
              (around (Println (mkLogger "B") "before") (Println (mkLogger "B") "after") foo)
              (mkRequest 0 "GET" "/foo" ∅) (mkWorld fresh_writer ∅ ∅ 0))
  = [LogLine "A" "before"; LogLine "B" "before"; LogLine "B" "after"; LogLine "A" "after"].
Proof.
  pose proof (adapters_nest_like_a_stack
                (Println (mkLogger "A") "before") (Println (mkLogger "A") "after")
                (Println (mkLogger "B") "before") (Println (mkLogger "B") "after")
                foo (mkRequest 0 "GET" "/foo" ∅) (mkWorld fresh_writer ∅ ∅ 0)
                [LogLine "A" "before"] [LogLine "B" "before"]
                (mkWorld fresh_writer ∅ ∅ 0) (mkWorld fresh_writer ∅ ∅ 0)
                eq_refl eq_refl) as [Htrace _].
  rewrite Htrace. reflexivity.
Defined.

Lemma Notify_is_around (l : Logger) :
  Notify l = around (Println l "before") (Println l "after").
Proof. reflexivity. Qed.

(** The same for [Notify] itself: the two "before" lines outer first, the
    lines of H, the two "after" lines inner first. *)
Lemma Notify_nested (la lb : Logger) (H : Handler) (r : Request) (w : World) :
  Notify la (Notify lb H) r w
  = ([LogLine (log_prefix la) "before"; LogLine (log_prefix lb) "before"]
       ++ trace_of (H r w)
       ++ [LogLine (log_prefix lb) "after"; LogLine (log_prefix la) "after"],
     world_of (H r w), outcome_of (H r w)).
Proof.
  rewrite !Notify_run. unfold trace_of, world_of, outcome_of. simpl.
  now rewrite <- app_assoc.
Qed.

(** *** The logging middleware *)

Lemma logging_run (f : Handler) (r : Request) (w : World) :
  logging f r w
  = (LogLine "" (URL_Path r) :: trace_of (f r w), world_of (f r w), outcome_of (f r w)).
Proof.
  unfold logging, bind, Println, emit. simpl.
  destruct (f r w) as [[t w'] o]. reflexivity.
Qed.

(** C3. The handler [logging(f)] logs the request path and then does what
    [f] does: the log line comes first, the events, the response writer
    (status, headers, body) and the outcome are those of [f], and [f] is
    entered exactly once. *)
Theorem logging_runs_handler_once (f : Handler) (r : Request) (w : World) :
  trace_of (logging f r w) = LogLine "" (URL_Path r) :: trace_of (f r w)
  /\ writer (world_of (logging f r w)) = writer (world_of (f r w))
  /\ world_of (logging f r w) = world_of (f r w)
  /\ outcome_of (logging f r w) = outcome_of (f r w)
  /\ (forall tag,
        entries tag (trace_of (logging (probed tag f) r w))
        = S (entries tag (trace_of (f r w)))).
Proof.
  rewrite logging_run. repeat split.
  intros tag. rewrite logging_run.
  unfold probed, bind, emit, trace_of, entries. simpl.
  destruct (f r w) as [[t w'] o]. simpl.
  rewrite bool_decide_eq_true_2 by reflexivity. reflexivity.
Qed.

(** *** The request context *)

Lemma store_get_set_same (r : nat) (key : string) (v : Value)
    (data : gmap nat (gmap string Value)) :
  store_get r key (store_set r key v data) = v.
Proof.
  unfold store_get, store_set.
  rewrite lookup_insert_eq. now rewrite lookup_insert_eq.
Qed.


Lemma store_set_other_slot (r me : nat) (key : string) (v : Value)
    (data : gmap nat (gmap string Value)) :
  r <> me -> store_set r key v data !! me = data !! me.
Proof. intros Hne. unfold store_set. now rewrite lookup_insert_ne. Qed.

Lemma ctx_step_other_slot (r me : nat) (op : CtxOp)
    (data : gmap nat (gmap string Value)) :
  r <> me -> ctx_step r op data !! me = data !! me.
Proof.
  intros Hne. destruct op; simpl.
  - now apply store_set_other_slot.
  - reflexivity.
  - unfold store_clear. now rewrite lookup_delete_ne.
Qed.

Lemma ctx_step_same_slot (me : nat) (op : CtxOp)
    (data data' : gmap nat (gmap string Value)) :
  data !! me = data' !! me ->
  ctx_step me op data !! me = ctx_step me op data' !! me.
Proof.
  intros Heq. destruct op; simpl.
  - unfold store_set. rewrite !lookup_insert_eq. now rewrite Heq.
  - exact Heq.
  - unfold store_clear. now rewrite !lookup_delete_eq.
Qed.

Lemma store_get_slot (me : nat) (key : string)
    (data data' : gmap nat (gmap string Value)) :
  data !! me = data' !! me -> store_get me key data = store_get me key data'.
Proof. intros Heq. unfold store_get. now rewrite Heq. Qed.

(** What a request reads depends on its own slot and its own operations
    only. *)
Lemma observed_own_operations (me : nat) (sched : list (nat * CtxOp)) :
  forall data data' : gmap nat (gmap string Value),
    data !! me = data' !! me ->
    observed me sched data = observed me (List.filter (performed_by me) sched) data'.
Proof.
  induction sched as [|[r op] rest IH]; intros data data' Heq.
  - reflexivity.
  - simpl. unfold performed_by at 1. simpl.
    destruct (decide (r = me)) as [->|Hne].
    + rewrite bool_decide_eq_true_2 by reflexivity.
      destruct op; simpl;
        rewrite ?bool_decide_eq_true_2 by reflexivity.
      * apply IH. unfold store_set. rewrite !lookup_insert_eq. now rewrite Heq.
      * f_equal; [now apply store_get_slot | now apply IH].
      * apply IH. unfold store_clear. now rewrite !lookup_delete_eq.
    + rewrite bool_decide_eq_false_2 by exact Hne.
      destruct op; simpl;
        rewrite ?bool_decide_eq_false_2 by exact Hne.
      * apply IH. now rewrite store_set_other_slot.
      * now apply IH.
      * apply IH. unfold store_clear. now rewrite lookup_delete_ne.
Qed.

(** C5. A set performed for request [r1] changes no get of another request
    [r2]: not the next one, and none of those [r2] performs in any
    interleaving of the operations of concurrent requests. *)
Theorem context_isolated_between_requests
    (r1 r2 : nat) (key key' : string) (v : Value)
    (data : gmap nat (gmap string Value)) (earlier later : list (nat * CtxOp)) :
  r1 <> r2 ->
  store_get r2 key' (store_set r1 key v data) = store_get r2 key' data
  /\ observed r2 (earlier ++ (r1, OpSet key v) :: later) data
     = observed r2 (earlier ++ later) data.
Proof.
  intros Hne. split.
  - apply store_get_slot. now apply store_set_other_slot.
  - rewrite (observed_own_operations r2 (earlier ++ _ :: later) data data eq_refl).
    rewrite (observed_own_operations r2 (earlier ++ later) data data eq_refl).
    rewrite !List.filter_app. simpl. unfold performed_by at 2. simpl.
    now rewrite bool_decide_eq_false_2 by exact Hne.
Qed.

Lemma context_isolated_between_requests_witness :
  store_get 2 "db" (store_set 1 "db" (VSession 7) (store_set 2 "db" (VSession 3) ∅))
  = VSession 3
  /\ observed 2 ([(2, OpSet "db" (VSession 3))] ++ (1, OpSet "db" (VSession 7)) :: [(2, OpGet "db")]) ∅
     = [VSession 3].
Proof.
  pose proof (context_isolated_between_requests 1 2 "db" "db" (VSession 7)
                (store_set 2 "db" (VSession 3) ∅) [] []
                ltac:(discriminate)) as [Hget _].
  pose proof (context_isolated_between_requests 1 2 "db" "db" (VSession 7)
                ∅ [(2, OpSet "db" (VSession 3))] [(2, OpGet "db")]
                ltac:(discriminate)) as [_ Hobs].
  split.
  - rewrite Hget. apply store_get_set_same.
  - rewrite Hobs. simpl. now rewrite store_get_set_same.
Defined.




(** *** Routing *)

Lemma match_segments_keeps (pat : list Segment) :
  forall (path : list string) (vars0 vars : gmap string string) (name : string),
    match_segments pat path vars0 = Some vars ->
    name ∉ placeholder_names pat ->
    vars !! name = vars0 !! name.
Proof.
  induction pat as [|seg pat IH]; intros [|s path] vars0 vars name Hm Hfresh;
    cbn [match_segments] in Hm; try discriminate.
  - now injection Hm as <-.
  - destruct seg; discriminate.
  - destruct seg as [l|n]; cbn [placeholder_names] in Hfresh.
    + destruct (String.eqb l s); [|discriminate]. eauto.
    + apply not_elem_of_cons in Hfresh as [Hne Hfresh].
      rewrite (IH _ _ _ _ Hm Hfresh). now apply lookup_insert_ne.
Qed.

(** The matching policy: a match pairs every segment of the pattern with
    exactly one segment of the path; literals are equal to theirs and
    placeholders, when their names differ, are bound to theirs. *)
Lemma match_segments_policy (pat : list Segment) :
  forall (path : list string) (vars0 vars : gmap string string),
    match_segments pat path vars0 = Some vars ->
    NoDup (placeholder_names pat) ->
    Forall2 (segment_agrees vars) pat path.
Proof.
  induction pat as [|seg pat IH]; intros [|s path] vars0 vars Hm Hnd;
    cbn [match_segments] in Hm; try discriminate.
  - constructor.
  - destruct seg; discriminate.
  - destruct seg as [l|n]; cbn [placeholder_names] in Hnd.
    + destruct (String.eqb_spec l s) as [->|]; [|discriminate].
      constructor; [reflexivity | eauto].
    + apply NoDup_cons in Hnd as [Hfresh Hnd].
      constructor; [|eauto].
      cbn [segment_agrees].
      rewrite (match_segments_keeps _ _ _ _ _ Hm Hfresh).
      apply lookup_insert_eq.
Qed.

Lemma books_pattern :
  parse_pattern "/books/{title}/page/{page}"
  = [Literal "books"; Placeholder "title"; Literal "page"; Placeholder "page"].
Proof. reflexivity. Qed.

Lemma books_matches (segs : list string) (vars : gmap string string) :
  match_segments (parse_pattern "/books/{title}/page/{page}") segs ∅ = Some vars
  <-> exists title page,
        segs = ["books"; title; "page"; page]
        /\ vars = <["page" := page]> (<["title" := title]> ∅).
Proof.
  rewrite books_pattern. split.
  - destruct segs as [|a [|b [|c [|d [|e rest]]]]]; cbn [match_segments];
      try discriminate;
      destruct (String.eqb_spec "books" a) as [<-|]; try discriminate;
      try (destruct (String.eqb_spec "page" c) as [<-|]; try discriminate).
    intros [= <-]. now exists b, d.
  - intros (title & page & -> & ->). cbn [match_segments].
    now rewrite !String.eqb_refl.
Qed.

Lemma books_dispatch (cwd : list string) (disk : gmap (list string) string) :
  dispatch (main_routes cwd disk) "/books/dune/page/10"
  = Some (mkRoute "/books/{title}/page/{page}" books_handler,
          <["page" := "10"]> (<["title" := "dune"]> ∅)).
Proof.
  unfold main_routes. cbn [dispatch route_pattern].
  replace (match_segments _ _ _)
    with (Some (<["page" := "10"]> (<["title" := "dune"]> (∅ : gmap string string)))).
  - reflexivity.
  - symmetry. apply books_matches. exists "dune", "10". split; reflexivity.
Qed.

(** C6. The path /books/dune/page/10 is dispatched to the handler of the
    route /books/{title}/page/{page} with title bound to dune and page to
    10, and the handler answers with these two values. The pattern matches
    the paths of exactly four segments whose first is books and whose third
    is page, and binds the second and the fourth. *)
Theorem books_route_binds_title_and_page
    (cwd : list string) (disk : gmap (list string) string)
    (ptr : nat) (method : string) (w : World) :
  dispatch (main_routes cwd disk) "/books/dune/page/10"
  = Some (mkRoute "/books/{title}/page/{page}" books_handler,
          <["page" := "10"]> (<["title" := "dune"]> ∅))
  /\ (forall r,
        let r' := with_vars r (<["page" := "10"]> (<["title" := "dune"]> ∅)) in
        var_at (mux_Vars r') "title" = "dune" /\ var_at (mux_Vars r') "page" = "10")
  /\ body (writer (world_of
       (serve (Router_ServeHTTP (main_routes cwd disk))
              (mkRequest ptr method "/books/dune/page/10" ∅) w)))
     = "Hello, you have requested: /books/dune/page/10" +:+ newline
       +:+ "Hello, you have requested the book dune on page 10" +:+ newline
  /\ (forall segs vars,
        match_segments (parse_pattern "/books/{title}/page/{page}") segs ∅ = Some vars
        <-> exists title page,
              segs = ["books"; title; "page"; page]
              /\ vars = <["page" := page]> (<["title" := title]> ∅)).
Proof.
  split; [apply books_dispatch|].
  split; [intros r; split; reflexivity|].
  split; [|apply books_matches].
  unfold serve, Router_ServeHTTP. cbn [URL_Path]. rewrite books_dispatch.
  reflexivity.
Qed.

(** *** Templates *)

Lemma markup_app (a b : string) : markup (a +:+ b) = markup a ++ markup b.
Proof.
  induction a as [|c a IH]; simpl.
  - reflexivity.
  - rewrite IH. now destruct (is_markup c).
Qed.

Lemma markup_escape_char (c : ascii) : markup (escape_char c) = [].
Proof.
  unfold escape_char.
  destruct (Ascii.eqb c "<") eqn:Hlt; [reflexivity|].
  destruct (Ascii.eqb c ">") eqn:Hgt; [reflexivity|].
  destruct (Ascii.eqb c "&") eqn:Hamp; [reflexivity|].
  destruct (Ascii.eqb c "034") eqn:Hdq; [reflexivity|].
  destruct (Ascii.eqb c "'") eqn:Hsq; [reflexivity|].
  simpl. unfold is_markup. now rewrite Hlt, Hgt, Hdq, Hsq.
Qed.

Lemma markup_HTMLEscape (s : string) : markup (HTMLEscape s) = [].
Proof.
  induction s as [|c s IH]; simpl.
  - reflexivity.
  - now rewrite markup_app, markup_escape_char, IH.
Qed.

Lemma HTMLUnescape_plain (c : ascii) (rest : string) :
  c <> "&"%char -> HTMLUnescape (String c rest) = String c (HTMLUnescape rest).
Proof.
  intros Hc.
  destruct c as [[] [] [] [] [] [] [] []]; try reflexivity.
  now contradiction Hc.
Qed.

Lemma HTMLUnescape_HTMLEscape (s : string) : HTMLUnescape (HTMLEscape s) = s.
Proof.
  induction s as [|c s IH]; [reflexivity|].
  cbn [HTMLEscape]. unfold escape_char.
  destruct (Ascii.eqb_spec c "<") as [->|Hlt].
  { change (String "<" (HTMLUnescape (HTMLEscape s)) = String "<" s). now rewrite IH. }
  destruct (Ascii.eqb_spec c ">") as [->|Hgt].
  { change (String ">" (HTMLUnescape (HTMLEscape s)) = String ">" s). now rewrite IH. }
  destruct (Ascii.eqb_spec c "&") as [->|Hamp].
  { change (String "&" (HTMLUnescape (HTMLEscape s)) = String "&" s). now rewrite IH. }
  destruct (Ascii.eqb_spec c "034") as [->|Hdq].
  { change (String "034" (HTMLUnescape (HTMLEscape s)) = String "034" s). now rewrite IH. }
  destruct (Ascii.eqb_spec c "'") as [->|Hsq].
  { change (String "'" (HTMLUnescape (HTMLEscape s)) = String "'" s). now rewrite IH. }
  change (String c "" +:+ HTMLEscape s) with (String c (HTMLEscape s)).
  rewrite HTMLUnescape_plain by exact Hamp. now rewrite IH.
Qed.

Lemma assoc_blank (name : string) (fields : list (string * Data)) :
  assoc name (map (fun kv => (kv.1, blank kv.2)) fields) = blank <$> assoc name fields.
Proof.
  induction fields as [|[k v] rest IH]; simpl.
  - reflexivity.
  - destruct (String.eqb k name); [reflexivity | exact IH].
Qed.

Lemma field_blank (name : string) (d : Data) :
  field name (blank d) = blank <$> field name d.
Proof.
  destruct d; try reflexivity. cbn [blank field]. apply assoc_blank.
Qed.

Lemma and_then_same (a a' b b' : string * option string) :
  same_markup a a' -> same_markup b b' -> same_markup (and_then a b) (and_then a' b').
Proof.
  destruct a as [out [e|]], a' as [out' [e'|]]; intros [Hm He] [Hm' He'];
    simpl in *; try discriminate; split; simpl; try assumption.
  now rewrite !markup_app, Hm, Hm'.
Qed.

Lemma run_each_same {X Y : Type} (f : X -> string * option string)
    (g : Y -> string * option string) (xs : list X) (ys : list Y) :
  Forall2 (fun x y => same_markup (f x) (g y)) xs ys ->
  same_markup (run_each f xs) (run_each g ys).
Proof.
  induction 1 as [|x y xs ys Hxy _ IH]; simpl.
  - now split.
  - now apply and_then_same.
Qed.

Lemma Node_nested_ind (P : Node -> Prop) :
  (forall text, P (NText text)) ->
  (forall name, P (NField name)) ->
  (forall name thn els, Forall P thn -> Forall P els -> P (NIf name thn els)) ->
  (forall name body, Forall P body -> P (NRange name body)) ->
  forall n, P n.
Proof.
  intros HText HField HIf HRange.
  fix IH 1. intros [text|name|name thn els|name body].
  - apply HText.
  - apply HField.
  - apply HIf.
    + induction thn as [|n thn IHthn]; constructor; [apply IH | exact IHthn].
    + induction els as [|n els IHels]; constructor; [apply IH | exact IHels].
  - apply HRange.
    induction body as [|n body IHbody]; constructor; [apply IH | exact IHbody].
Qed.

Lemma Forall_same_nodes (nodes : list Node) (d : Data) :
  Forall (fun n => forall d, same_markup (exec_node n d) (exec_node n (blank d))) nodes ->
  same_markup (run_each (fun n => exec_node n d) nodes)
              (run_each (fun n => exec_node n (blank d)) nodes).
Proof.
  intros Hall. apply run_each_same.
  induction Hall as [|n nodes Hn _ IH]; constructor; [apply Hn | exact IH].
Qed.

Lemma exec_node_blank (n : Node) :
  forall d, same_markup (exec_node n d) (exec_node n (blank d)).
Proof.
  induction n as [text|name|name thn els IHthn IHels|name body IHbody]
    using Node_nested_ind; intros d; cbn [exec_node]; rewrite ?field_blank.
  - now split.
  - destruct (field name d) as [[s|b|items|fields]|]; simpl; try now split.
    split; [|reflexivity]. simpl. now rewrite markup_HTMLEscape.
  - destruct (field name d) as [[s|[]|items|fields]|]; simpl; try now split.
    + now apply Forall_same_nodes.
    + now apply Forall_same_nodes.
  - destruct (field name d) as [[s|b|items|fields]|]; simpl; try now split.
    apply run_each_same.
    induction items as [|item items IH]; constructor; [|exact IH].
    now apply Forall_same_nodes.
Qed.

Lemma exec_blank (tmpl : list Node) (d : Data) :
  same_markup (exec tmpl d) (exec tmpl (blank d)).
Proof.
  unfold exec. apply Forall_same_nodes.
  induction tmpl as [|n tmpl IH]; constructor; [apply exec_node_blank | exact IH].
Qed.

Lemma and_then_ok (a b : string * option string) :
  a.2 = None -> (and_then a b).2 = b.2.
Proof. destruct a as [out [e|]]; [discriminate | reflexivity]. Qed.

Lemma run_each_ok {X : Type} (f : X -> string * option string) (xs : list X) :
  Forall (fun x => (f x).2 = None) xs -> (run_each f xs).2 = None.
Proof.
  induction 1 as [|x xs Hx _ IH]; [reflexivity|].
  cbn [run_each]. now rewrite and_then_ok.
Qed.

(** The layout renders without error against every page of todos. *)
Lemma layout_renders (page : TodoPageData) :
  (exec layout (page_data page)).2 = None.
Proof.
  unfold exec, layout. cbn [run_each].
  rewrite !and_then_ok; try reflexivity.
  cbn [exec_node page_data field assoc String.eqb Ascii.eqb Bool.eqb].
  apply run_each_ok.
  induction (Todos page) as [|[title [|]] todos IH]; constructor;
    try exact IH; reflexivity.
Qed.

(** C7. A string the renderer interpolates is escaped: its escaped form
    holds no angle bracket and no quote, and decodes back to the string. So
    the markup characters of a rendering are those of the rendering against
    the same data with every string emptied, for every template and every
    data tree. The layout of the todo application renders every page without
    error, and a title with a script tag in it comes out as text. *)
Theorem interpolated_values_are_escaped
    (tmpl : list Node) (d : Data) (s : string) (page : TodoPageData) :
  markup (HTMLEscape s) = []
  /\ HTMLUnescape (HTMLEscape s) = s
  /\ markup (exec tmpl d).1 = markup (exec tmpl (blank d)).1
  /\ (exec layout (page_data page)).2 = None
  /\ HTMLEscape "<script>" = "&lt;script&gt;"
  /\ exec layout (page_data (mkTodoPageData "<script>alert(1)</script>"
                               [mkTodo "<script>" false]))
     = ("<h1>&lt;script&gt;alert(1)&lt;/script&gt;</h1>" +:+ newline
        +:+ "<ul>" +:+ newline
        +:+ "  " +:+ newline
        +:+ "    " +:+ newline
        +:+ "      <li>&lt;script&gt;</li>" +:+ newline
        +:+ "    " +:+ newline
        +:+ "  " +:+ newline
        +:+ "</ul>" +:+ newline, None).
Proof.
  split; [apply markup_HTMLEscape|].
  split; [apply HTMLUnescape_HTMLEscape|].
  split; [apply exec_blank|].
  split; [apply layout_renders|].
  split; reflexivity.
Qed.

(** C9, as the code has it. The handler of the todo application does not
    look at the error [Execute] returns: whatever the template does, the
    handler logs nothing and returns, the response holds the bytes written
    before the failure, and it is sent with status 200. *)
Theorem todo_handler_drops_render_error (tmpl : Template) (r : Request) (w : World) :
  trace_of (serve (todo_handler tmpl) r w) = []
  /\ outcome_of (serve (todo_handler tmpl) r w) = Returned tt
  /\ sent_status (writer (world_of (serve (todo_handler tmpl) r w))) = StatusOK
  /\ body (writer (world_of (serve (todo_handler tmpl) r w)))
     = (render tmpl (page_data todo_page)).1.
Proof.
  unfold serve, todo_handler, Execute, bind.
  destruct (render tmpl (page_data todo_page)) as [[|c out] err]; simpl; repeat split.
Qed.

(** C9, as stated, fails: for a template whose rendering stops with an error
    on a missing field, the answer is not a server error. *)
Lemma todo_handler_answers_200_on_failure : ~ reports_render_failure todo_handler.
Proof.
  intros Hclaim.
  destruct (Hclaim (mkTemplate (fun _ => ("<h1>", Some "cannot evaluate field Missing")))
              (mkRequest 0 "GET" "/" ∅) (mkWorld fresh_writer ∅ ∅ 0)
              "cannot evaluate field Missing" eq_refl) as [[Hstatus _] _].
  vm_compute in Hstatus. lia.
Qed.

(** *** Static files *)








(** The same request on a disk without such a file is not found, and the
    file of that name outside the root is not given out. *)
Example static_traversal_not_found :
  let x := world_of (serve (static_handler ["srv"] {[ ["etc"; "passwd"] := "outside" ]})
                       (mkRequest 0 "GET" "/static/../../etc/passwd" ∅)
                       (mkWorld fresh_writer ∅ ∅ 0)) in
  status (writer x) = Some StatusNotFound
  /\ body (writer x) = "404 page not found" +:+ newline.
Proof. vm_compute. split; reflexivity. Qed.

(** ** More of the code *)

(** *** Adapt and Notify *)

(** X1. Adapting in two rounds is adapting once with the two lists joined. *)
Theorem Adapt_app (hd : Handler) (first second : list Adapter) :
  Adapt hd (first ++ second) = Adapt (Adapt hd first) second.
Proof.
  revert hd. induction first as [|a first IH]; intros hd; simpl.
  - reflexivity.
  - apply IH.
Qed.

(** X2. A chain of [Notify] adapters leaves the response and the outcome of
    the wrapped handler as they are and adds two log lines per adapter; the
    "after" line of every adapter is logged, also when the handler panics. *)
Theorem Notify_chain_is_transparent
    (loggers : list Logger) (hd : Handler) (r : Request) (w : World) :
  world_of (Adapt hd (Notify <$> loggers) r w) = world_of (hd r w)
  /\ outcome_of (Adapt hd (Notify <$> loggers) r w) = outcome_of (hd r w)
  /\ length (trace_of (Adapt hd (Notify <$> loggers) r w))
     = length (trace_of (hd r w)) + 2 * length loggers
  /\ (forall l, l ∈ loggers ->
        LogLine (log_prefix l) "after" ∈ trace_of (Adapt hd (Notify <$> loggers) r w)).
Proof.
  rewrite Adapt_Notify_trace. unfold trace_of, world_of, outcome_of. simpl.
  repeat split.
  - rewrite !length_app, !length_fmap, length_rev. lia.
  - intros l Hl. rewrite !elem_of_app. right; right.
    apply list_elem_of_fmap. now exists l.
Qed.

(** *** Values in the request context *)

(** X3. [handleSomethingElse] returns exactly when a logger is stored under
    "logger" for the request; otherwise its type assertion panics. After
    [prepareSomething] on the same request it returns. *)
Theorem handleSomethingElse_needs_logger (r : Request) (w : World) (logger : Logger) :
  (outcome_of (handleSomethingElse r w) = Returned tt
   <-> exists prefix, store_get (req_ptr r) "logger" (context_data w) = VLogger prefix)
  /\ outcome_of ((prepareSomething logger r ;;; handleSomethingElse r) w) = Returned tt.
Proof.
  split.
  - unfold handleSomethingElse, bind, context_Get, outcome_of. simpl.
    destruct (store_get (req_ptr r) "logger" (context_data w)); simpl;
      split; try discriminate; try (intros [p Hp]; discriminate); eauto.
  - unfold prepareSomething, handleSomethingElse, bind, context_Set, context_Get,
      outcome_of. simpl. now rewrite store_get_set_same.
Qed.

(** X4. [handleThingsRead] on a request that carries no session under "db"
    panics in its type assertion: it runs no query and writes nothing. *)
Theorem handleThingsRead_without_session
    (Encode : string -> string + string) (Find_All : nat -> Exec (string + string))
    (r : Request) (w : World) :
  (forall id, store_get (req_ptr r) "db" (context_data w) <> VSession id) ->
  handleThingsRead Encode Find_All r w
  = ([], w, Panicked "interface conversion: interface {} is not *mgo.Session").
Proof.
  intros Hnone. unfold handleThingsRead, bind, context_Get. simpl.
  destruct (store_get (req_ptr r) "db" (context_data w)) as [|id|p|s] eqn:Hv;
    try reflexivity.
  now contradiction (Hnone id).
Qed.

Lemma handleThingsRead_without_session_witness :
  outcome_of (handleThingsRead (fun x => inr x) (fun _ => ret (inr "[]"))
                (mkRequest 1 "GET" "/things" ∅) (mkWorld fresh_writer ∅ ∅ 0))
  = Panicked "interface conversion: interface {} is not *mgo.Session".
Proof.
  rewrite (handleThingsRead_without_session (fun x => inr x) (fun _ => ret (inr "[]"))
             (mkRequest 1 "GET" "/things" ∅) (mkWorld fresh_writer ∅ ∅ 0)).
  - reflexivity.
  - intros id. vm_compute. discriminate.
Defined.

(** *** The database wrapper *)

Lemma closed_not_open (n : nat) (open : gset nat) : n ∉ open ∖ {[n]}.
Proof.
  intros [_ Hn]%elem_of_difference. apply Hn. now apply elem_of_singleton.
Qed.

Lemma WithDB_run (s : nat) (hd : Handler) (r : Request) (w : World) :
  WithDB s hd r w
  = (trace_of (hd r (with_session r w)),
     mkWorld (writer (world_of (hd r (with_session r w))))
             (context_data (world_of (hd r (with_session r w))))
             (sessions_open (world_of (hd r (with_session r w))) ∖ {[session_next w]})
             (session_next (world_of (hd r (with_session r w)))),
     outcome_of (hd r (with_session r w))).
Proof.
  unfold WithDB, dbwrapper_ServeHTTP, bind, defer, Session_Copy, context_Set,
    Session_Close, with_session, trace_of, world_of, outcome_of. simpl.
  destruct (hd r _) as [[t w'] o]. simpl.
  now rewrite app_nil_r.
Qed.

(** X5. Whatever the wrapped handler does, [WithDB] runs it once in the
    world where the copy of the session is stored under "db", keeps its
    events and its outcome (a panic included), and closes the copy
    afterwards: the copy is never left open. *)
Theorem WithDB_closes_its_copy (s : nat) (hd : Handler) (r : Request) (w : World) :
  trace_of (WithDB s hd r w) = trace_of (hd r (with_session r w))
  /\ outcome_of (WithDB s hd r w) = outcome_of (hd r (with_session r w))
  /\ sessions_open (world_of (WithDB s hd r w))
     = sessions_open (world_of (hd r (with_session r w))) ∖ {[session_next w]}
  /\ session_next w ∉ sessions_open (world_of (WithDB s hd r w)).
Proof.
  rewrite WithDB_run. unfold trace_of at 1, world_of at 1 3, outcome_of at 1.
  cbn [fst snd sessions_open].
  repeat split. apply closed_not_open.
Qed.

(** *** Clearing the context *)

(** X7. After [context.ClearHandler(h)] has served a request, the context
    holds nothing for that request, whatever [h] stored and also when [h]
    panics; the events and the outcome are those of [h], and the slots of
    other requests are as [h] left them. *)
Theorem ClearHandler_drops_the_slot (hd : Handler) (r : Request) (w : World) (key : string) :
  store_get (req_ptr r) key (context_data (world_of (context_ClearHandler hd r w))) = VNil
  /\ trace_of (context_ClearHandler hd r w) = trace_of (hd r w)
  /\ outcome_of (context_ClearHandler hd r w) = outcome_of (hd r w)
  /\ writer (world_of (context_ClearHandler hd r w)) = writer (world_of (hd r w))
  /\ (forall other, other <> req_ptr r ->
        context_data (world_of (context_ClearHandler hd r w)) !! other
        = context_data (world_of (hd r w)) !! other).
Proof.
  unfold context_ClearHandler, defer, context_Clear, trace_of, world_of, outcome_of.
  destruct (hd r w) as [[t w'] o]. simpl.
  repeat split.
  - unfold store_get, store_clear. now rewrite lookup_delete_eq.
  - now rewrite app_nil_r.
  - intros other Hne. unfold store_clear. now rewrite lookup_delete_ne.
Qed.

(** *** Responding *)

Lemma respond_run
    (Encode : string -> string + string) (r : Request) (code : nat) (data : string)
    (w : World) :
  status (writer (world_of (respond Encode r code data w)))
  = Some (match status (writer w) with
          | Some earlier => earlier
          | None =>
              match Encode data with
              | inl _ => StatusInternalServerError
              | inr _ => code
              end
          end)
  /\ body (writer (world_of (respond Encode r code data w)))
     = body (writer w) +:+ match Encode data with
                           | inl err => err +:+ newline
                           | inr buf => buf
                           end
  /\ trace_of (respond Encode r code data w) = []
  /\ outcome_of (respond Encode r code data w) = Returned tt.
Proof.
  destruct w as [[hdr [earlier|] bd] ctx opened next];
    unfold respond; destruct (Encode data) as [err|buf];
    repeat split.
Qed.

(** X9. [handleSomething] answers 500 when loading fails and also when the
    encoder fails on the loaded data, and 200 otherwise, provided nothing
    was written to the response before. *)
Theorem handleSomething_status
    (Encode : string -> string + string) (LoadSomething : Exec (string + string))
    (r : Request) (w w' : World) (t : list Event) (res : string + string) :
  LoadSomething w = (t, w', Returned res) ->
  status (writer w') = None ->
  status (writer (world_of (handleSomething Encode LoadSomething r w)))
  = Some (match res with
          | inl _ => StatusInternalServerError
          | inr data =>
              match Encode data with
              | inl _ => StatusInternalServerError
              | inr _ => StatusOK
              end
          end)
  /\ outcome_of (handleSomething Encode LoadSomething r w) = Returned tt.
Proof.
  intros Hload Hfresh. unfold handleSomething, bind. rewrite Hload.
  destruct res as [err|data].
  - destruct (respond_run Encode r StatusInternalServerError err w') as (Hs & _ & _ & Ho).
    destruct (respond Encode r StatusInternalServerError err w') as [[t2 w2] o2].
    unfold world_of, outcome_of in *. simpl in *.
    rewrite Hs, Hfresh. split; [|exact Ho]. now destruct (Encode err).
  - destruct (respond_run Encode r StatusOK data w') as (Hs & _ & _ & Ho).
    destruct (respond Encode r StatusOK data w') as [[t2 w2] o2].
    unfold world_of, outcome_of in *. simpl in *.
    rewrite Hs, Hfresh. split; [reflexivity | exact Ho].
Qed.

Lemma handleSomething_status_witness :
  status (writer (world_of
    (handleSomething (fun x => inr x) (ret (inl "no data"))
       (mkRequest 0 "GET" "/" ∅) (mkWorld fresh_writer ∅ ∅ 0))))
  = Some StatusInternalServerError.
Proof.
  destruct (handleSomething_status (fun x => inr x) (ret (inl "no data"))
              (mkRequest 0 "GET" "/" ∅) (mkWorld fresh_writer ∅ ∅ 0)
              (mkWorld fresh_writer ∅ ∅ 0) [] (inl "no data") eq_refl eq_refl)
    as [Hs _].
  exact Hs.
Defined.

(** *** Validating a gopher *)

(** X10. [OK] accepts a gopher exactly when its name and its country are
    both non-empty, and a missing name is the error reported first. *)
Theorem OK_requires_name_and_country (g : Gopher) :
  (OK g = None <-> Name g <> "" /\ Country g <> "")
  /\ (OK g = Some (ErrRequired "name") <-> Name g = "")
  /\ (OK g = Some (ErrRequired "country") <-> Name g <> "" /\ Country g = "").
Proof.
  unfold OK. destruct g as [[|a name] [|b country]]; simpl;
    repeat split; try discriminate; try congruence; intuition discriminate.
Qed.

(** *** The books route for every title and page *)

Lemma split_on_plain (sep : ascii) (s : string) :
  has_char sep s = false -> split_on sep s = [s].
Proof.
  induction s as [|c s IH]; simpl; [reflexivity|].
  destruct (Ascii.eqb c sep); simpl; [discriminate|].
  intros Hs. now rewrite (IH Hs).
Qed.

Lemma split_on_app (sep : ascii) (a b : string) :
  has_char sep a = false ->
  split_on sep (a +:+ String sep b) = a :: split_on sep b.
Proof.
  induction a as [|c a IH]; intros Ha.
  - change (EmptyString +:+ String sep b) with (String sep b).
    cbn [split_on]. now rewrite Ascii.eqb_refl.
  - cbn [has_char] in Ha.
    change (String c a +:+ String sep b) with (String c (a +:+ String sep b)).
    cbn [split_on].
    destruct (Ascii.eqb c sep); [discriminate|]. simpl in Ha.
    now rewrite (IH Ha).
Qed.

Lemma books_segments (title page : string) :
  has_char slash title = false ->
  has_char slash page = false ->
  segments ("/books/" +:+ title +:+ "/page/" +:+ page) = ["books"; title; "page"; page].
Proof.
  intros Ht Hp.
  change (segments ("/books/" +:+ title +:+ "/page/" +:+ page))
    with (split_on slash ("books" +:+ String slash (title +:+ String slash
            ("page" +:+ String slash page)))).
  rewrite split_on_app by reflexivity.
  rewrite split_on_app by exact Ht.
  rewrite split_on_app by reflexivity.
  now rewrite split_on_plain by exact Hp.
Qed.

(** X12. For every title and page without a slash, the path
    /books/title/page/page is dispatched to the books handler with the two
    values bound, and the answer names the path, the title and the page. *)
Theorem books_route_echoes
    (cwd : list string) (disk : gmap (list string) string)
    (ptr : nat) (method : string) (w : World) (title page : string) :
  has_char slash title = false ->
  has_char slash page = false ->
  dispatch (main_routes cwd disk) ("/books/" +:+ title +:+ "/page/" +:+ page)
  = Some (mkRoute "/books/{title}/page/{page}" books_handler,
          <["page" := page]> (<["title" := title]> ∅))
  /\ body (writer (world_of
       (serve (Router_ServeHTTP (main_routes cwd disk))
              (mkRequest ptr method ("/books/" +:+ title +:+ "/page/" +:+ page) ∅) w)))
     = ("Hello, you have requested: " +:+ ("/books/" +:+ title +:+ "/page/" +:+ page)
        +:+ newline)
       +:+ ("Hello, you have requested the book " +:+ title +:+ " on page " +:+ page
            +:+ newline)
  /\ status (writer (world_of
       (serve (Router_ServeHTTP (main_routes cwd disk))
              (mkRequest ptr method ("/books/" +:+ title +:+ "/page/" +:+ page) ∅) w)))
     = Some StatusOK.
Proof.
  intros Ht Hp.
  assert (dispatch (main_routes cwd disk) ("/books/" +:+ title +:+ "/page/" +:+ page)
          = Some (mkRoute "/books/{title}/page/{page}" books_handler,
                  <["page" := page]> (<["title" := title]> ∅))) as Hd.
  { unfold main_routes. cbn [dispatch route_pattern].
    rewrite books_segments by assumption.
    replace (match_segments _ _ _)
      with (Some (<["page" := page]> (<["title" := title]> (∅ : gmap string string)))).
    - reflexivity.
    - symmetry. apply books_matches. now exists title, page. }
  split; [exact Hd|].
  unfold serve, Router_ServeHTTP. cbn [URL_Path]. rewrite Hd.
  unfold books_handler, mux_Vars, with_vars, var_at. cbn [route_vars route_handler URL_Path].
  rewrite (lookup_insert_ne _ "page" "title") by discriminate.
  rewrite !lookup_insert_eq.
  split; reflexivity.
Qed.

Lemma books_route_echoes_witness :
  status (writer (world_of
    (serve (Router_ServeHTTP (main_routes [] ∅))
       (mkRequest 0 "GET" ("/books/" +:+ "go" +:+ "/page/" +:+ "7") ∅)
       (mkWorld fresh_writer ∅ ∅ 0))))
  = Some StatusOK.
Proof.
  destruct (books_route_echoes [] ∅ 0 "GET" (mkWorld fresh_writer ∅ ∅ 0) "go" "7"
              eq_refl eq_refl) as (_ & _ & Hs).
  exact Hs.
Defined.

(** *** Logging more than once *)

(** X13. A handler wrapped by [logging] [n] times, one call of [logging]
    around the other, logs the request path [n] times before anything the
    handler logs, and answers as the handler alone does. *)
Theorem logging_nested (n : nat) (f : Handler) (r : Request) (w : World) :
  Nat.iter n logging f r w
  = (replicate n (LogLine "" (URL_Path r)) ++ trace_of (f r w),
     world_of (f r w), outcome_of (f r w)).
Proof.
  induction n as [|n IH].
  - simpl. apply result_eta.
  - change (Nat.iter (S n) logging f) with (logging (Nat.iter n logging f)).
    rewrite logging_run, IH. reflexivity.
Qed.
